(** * Verification of the orb HTTP subscriber, policy handler, witness
    policy engine and AMQP redelivery schedule. *)

From Stdlib Require Import List Bool Arith ZArith Lia String Ascii.
From Stdlib Require QArith Qminmax.
From Stdlib Require Import DecimalString.
Import ListNotations.

(** Go's result/error convention: a value or an error message. *)
Inductive result (A : Type) : Type :=
| Ok : A -> result A
| Err : string -> result A.
Arguments Ok {A} _.
Arguments Err {A} _.

(** HTTP status codes used by the handlers. *)
Definition StatusOK := 200.
Definition StatusBadRequest := 400.
Definition StatusUnauthorized := 401.
Definition StatusInternalServerError := 500.
Definition StatusServiceUnavailable := 503.

(** ** pkg/httpserver subscriber: [httpsubscriber] package. *)
Module HttpSubscriber.

(** lifecycle states of [lifecycle.Lifecycle]. *)
Inductive State := StateNotStarted | StateStarted | StateStopping | StateStopped.

Definition state_eqb (a b : State) : bool :=
  match a, b with
  | StateNotStarted, StateNotStarted | StateStarted, StateStarted
  | StateStopping, StateStopping | StateStopped, StateStopped => true
  | _, _ => false
  end.

Definition defaultBufferSize := 100.

(** A watermill message: UUID, payload and metadata. *)
Record Message := mkMessage {
  UUID : string;
  Payload : string;
  Metadata : list (string * string)
}.

Definition ActorIRIKey := "actor-iri"%string.

(** The part of a [Subscriber] that [handleMessage] reads and writes:
    the lifecycle state, the buffered [pubChan] and its capacity. *)
Record Subscriber := mkSubscriber {
  lcState : State;
  BufferSize : nat;
  pubChan : list Message
}.

(** [New]: a zero [BufferSize] is replaced by the default, both channels are
    made with that capacity and the service is started at once. *)
Definition New (cfgBufferSize : nat) : Subscriber :=
  let bs := if cfgBufferSize =? 0 then defaultBufferSize else cfgBufferSize in
  {| lcState := StateStarted; BufferSize := bs; pubChan := [] |}.

(** What the collaborators of [handleMessage] answer for one request:
    the bearer-token check, the HTTP signature check
    ([VerifyRequest] returns verified, actor and an error) and
    [unmarshalMessage]. *)
Record Request := mkRequest {
  tokenVerified : bool;
  verifyRequest : result (bool * option string);
  unmarshal : result Message
}.

(** Outcome of [publish]: the channel send of a buffered Go channel
    completes when there is room; otherwise the sending goroutine blocks. *)
Inductive PublishOutcome :=
| PublishErr (e : string)
| PublishOk (s : Subscriber)
| PublishBlocked.

Definition ErrNotStarted := "service has not started"%string.

(** [publish]: state guard, then [s.pubChan <- msg]. *)
Definition publish (s : Subscriber) (msg : Message) : PublishOutcome :=
  if negb (state_eqb (lcState s) StateStarted) then PublishErr ErrNotStarted
  else if List.length (pubChan s) <? BufferSize s then
    PublishOk {| lcState := lcState s; BufferSize := BufferSize s;
                 pubChan := pubChan s ++ [msg] |}
  else PublishBlocked.

(** Outcome of [handleMessage]: a status was written, the handler is blocked
    on the send into [pubChan], or the message was queued and the handler
    goes on to [respond]. *)
Inductive HandleOutcome :=
| Responded (status : nat)
| BlockedOnSend
| Queued (s : Subscriber) (msg : Message).

Definition addActor (actor : option string) (m : Message) : Message :=
  match actor with
  | None => m
  | Some a => {| UUID := UUID m; Payload := Payload m;
                 Metadata := (ActorIRIKey, a) :: Metadata m |}
  end.

(** Result of the authentication cascade at the top of [handleMessage]. *)
Inductive AuthOutcome :=
| AuthOk (actor : option string)
| AuthSigError
| AuthInvalid.

Definition authenticate (r : Request) : AuthOutcome :=
  if tokenVerified r then AuthOk None
  else match verifyRequest r with
       | Err _ => AuthSigError
       | Ok (false, _) => AuthInvalid
       | Ok (true, actor) => AuthOk actor
       end.

(** [handleMessage]. *)
Definition handleMessage (s : Subscriber) (r : Request) : HandleOutcome :=
  match authenticate r with
  | AuthSigError => Responded StatusInternalServerError
  | AuthInvalid => Responded StatusUnauthorized
  | AuthOk actor =>
      match unmarshal r with
      | Err _ => Responded StatusBadRequest
      | Ok msg =>
          let msg := addActor actor msg in
          match publish s msg with
          | PublishErr _ => Responded StatusServiceUnavailable
          | PublishBlocked => BlockedOnSend
          | PublishOk s' => Queued s' msg
          end
      end
  end.

(** A request passes authentication when the bearer token is accepted or the
    HTTP signature is verified without error. *)
Definition authenticated (r : Request) : Prop :=
  tokenVerified r = true \/
  exists actor, verifyRequest r = Ok (true, actor).


(** [respond]: a Go [select] over four cases. *)
Inductive SelectCase := CaseAcked | CaseNacked | CaseCtxDone | CaseStopped.

Definition respondStatus (c : SelectCase) : nat :=
  match c with
  | CaseAcked => StatusOK
  | CaseNacked => StatusInternalServerError
  | CaseCtxDone => StatusInternalServerError
  | CaseStopped => StatusServiceUnavailable
  end.

(** Go's [select] semantics. [evs] lists, in time order, the signals that
    fire ([msg.Acked()], [msg.Nacked()], [r.Context().Done()], [s.stopped]);
    [k] of them have fired when the handler goroutine reaches the [select].
    If some case is already ready the runtime picks any ready case
    (uniformly at random); otherwise the goroutine blocks and the first
    signal to fire wakes it. [selectable] lists the cases that can be picked. *)
Definition selectable (evs : list SelectCase) (k : nat) : list SelectCase :=
  match firstn k evs with
  | [] => firstn 1 (skipn k evs)
  | ready => ready
  end.

(** The statuses that [respond] may write; each run writes one of them. *)
Definition respondOutcomes (evs : list SelectCase) (k : nat) : list nat :=
  map respondStatus (selectable evs k).

(** ** Goroutines of the subscriber: [publisher], [stop] and the
    environment (handlers sending into [pubChan], the consumer reading
    [msgChan]), as an interleaving step relation. *)

Inductive PubPC := PLoop | PSend (m : Message) | PExit.
Inductive StopPC := SIdle | SWaitDone | SCloseMsg | SFinished.

Record GState := mkG {
  gPub : list Message;        (* pubChan buffer *)
  gMsg : list Message;        (* msgChan buffer *)
  gCap : nat;                 (* BufferSize of both channels *)
  gMsgClosed : bool;
  gStoppedClosed : bool;
  gDoneClosed : bool;
  gPubPC : PubPC;
  gStopPC : StopPC;
  gPanic : bool               (* a send on, or close of, a closed channel *)
}.

(** State right after [New]: the started lifecycle has launched
    [go s.publisher()]. *)
Definition initG (cap : nat) : GState :=
  mkG [] [] cap false false false PLoop SIdle false.

Inductive gstep : GState -> GState -> Prop :=
(* a handler's [s.pubChan <- msg] (pubChan is never closed) *)
| StepHandlerSend : forall pb mb c mc sc dc pp sp pn m,
    List.length pb < c ->
    gstep (mkG pb mb c mc sc dc pp sp pn) (mkG (pb ++ [m]) mb c mc sc dc pp sp pn)
(* publisher: [case msg := <-s.pubChan] *)
| StepPubRecv : forall m pb mb c mc sc dc sp pn,
    gstep (mkG (m :: pb) mb c mc sc dc PLoop sp pn) (mkG pb mb c mc sc dc (PSend m) sp pn)
(* publisher: [case <-s.stopped: close(s.done); return] *)
| StepPubStop : forall pb mb c mc dc sp pn,
    gstep (mkG pb mb c mc true dc PLoop sp pn)
          (mkG pb mb c mc true true PExit sp (pn || dc))
(* publisher: [s.msgChan <- msg] on an open channel with room *)
| StepPubSend : forall m pb mb c sc dc sp pn,
    List.length mb < c ->
    gstep (mkG pb mb c false sc dc (PSend m) sp pn) (mkG pb (mb ++ [m]) c false sc dc PLoop sp pn)
(* publisher: [s.msgChan <- msg] on a closed channel panics *)
| StepPubSendClosed : forall m pb mb c sc dc sp pn,
    gstep (mkG pb mb c true sc dc (PSend m) sp pn) (mkG pb mb c true sc dc (PSend m) sp true)
(* consumer: receive from msgChan *)
| StepConsume : forall m pb mb c mc sc dc pp sp pn,
    gstep (mkG pb (m :: mb) c mc sc dc pp sp pn) (mkG pb mb c mc sc dc pp sp pn)
(* stop: [close(s.stopped)] (the lifecycle runs the stop hook once) *)
| StepStopClose : forall pb mb c mc sc dc pp pn,
    gstep (mkG pb mb c mc sc dc pp SIdle pn) (mkG pb mb c mc true dc pp SWaitDone (pn || sc))
(* stop: [<-s.done] *)
| StepStopWait : forall pb mb c mc pp pn,
    gstep (mkG pb mb c mc true true pp SWaitDone pn) (mkG pb mb c mc true true pp SCloseMsg pn)
(* stop: [close(s.msgChan)] *)
| StepStopCloseMsg : forall pb mb c mc sc dc pp pn,
    gstep (mkG pb mb c mc sc dc pp SCloseMsg pn) (mkG pb mb c true sc dc pp SFinished (pn || mc)).

Inductive greach (cap : nat) : GState -> Prop :=
| ReachInit : greach cap (initG cap)
| ReachStep : forall s s', greach cap s -> gstep s s' -> greach cap s'.

End HttpSubscriber.

(** ** pkg/.../policy/resthandler: [PolicyConfigurator.handle]. *)
Module PolicyRestHandler.

Definition badRequestResponse := "Bad Request."%string.
Definition internalServerErrorResponse := "Internal Server Error."%string.

(** [ioutil.ReadAll(req.Body)]. *)
Inductive ReadResult := ReadOk (b : string) | ReadErr (e : string).

(** What the [http.ResponseWriter] received: status and body. *)
Record Response := mkResponse { status : nat; body : string }.

(** [writeResponse]: the status, then the body when it is not empty. *)
Definition writeResponse (st : nat) (b : string) : Response := mkResponse st b.

Section Handle.

(** [config.Parse] and [policy.WitnessPolicyKey] belong to other packages;
    the handler only uses the parse outcome and the key. *)
Variable PolicyConfig : Type.
Variable Parse : string -> result PolicyConfig.
Variable WitnessPolicyKey : string.

(** [handle]: besides the response, the list of [configStore.Put] calls it
    made. [put] is the store's answer to a [Put] (an error or none). *)
Definition handle (req : ReadResult) (put : string -> string -> option string)
  : Response * list (string * string) :=
  match req with
  | ReadErr _ => (writeResponse StatusBadRequest badRequestResponse, [])
  | ReadOk policyBytes =>
      match Parse policyBytes with
      | Err _ => (writeResponse StatusBadRequest badRequestResponse, [])
      | Ok _ =>
          match put WitnessPolicyKey policyBytes with
          | Some _ => (writeResponse StatusInternalServerError internalServerErrorResponse,
                       [(WitnessPolicyKey, policyBytes)])
          | None => (writeResponse StatusOK EmptyString, [(WitnessPolicyKey, policyBytes)])
          end
      end
  end.

End Handle.

End PolicyRestHandler.

(** ** Witness policy: [pkg/anchor/witness/policy] and its parser
    [policy/config]. Only their tests are in the repository's sources, so
    the parser, [Evaluate], [Select] and [getWitnessPolicyConfig] below are
    modelled from the spec (sections 3, 4.5, 4.6 and 4.7). *)
Module Policy.

Inductive WitnessType := WitnessTypeBatch | WitnessTypeSystem.

Definition wtype_eqb (a b : WitnessType) : bool :=
  match a, b with
  | WitnessTypeBatch, WitnessTypeBatch | WitnessTypeSystem, WitnessTypeSystem => true
  | _, _ => false
  end.

(** [proof.Witness]: type, URI and whether it has a log. *)
Record Witness := mkWitness {
  WType : WitnessType;
  URI : string;
  HasLog : bool
}.

(** [proof.WitnessProof]: a witness and its (possibly empty) proof bytes. *)
Record WitnessProof := mkWitnessProof {
  WPWitness : Witness;
  Proof : list Byte.byte
}.

(** A proof is present iff its byte sequence is non-empty. *)
Definition proofPresent (wp : WitnessProof) : bool :=
  match Proof wp with [] => false | _ => true end.

(** The policy AST (spec section 3). *)
Inductive Rule :=
| MinPercent (p : nat) (role : WitnessType)
| OutOf (n : nat) (role : WitnessType).

Inductive Expr :=
| Leaf (r : Rule)
| And (x y : Expr)
| Or (x y : Expr).

Record PolicyConfig := mkPolicyConfig {
  PExpr : Expr;
  LogRequired : bool
}.

(** Modelled from the spec: the default policy of [config.Parse] (empty
    input): 100% of batch and 100% of system witnesses, no log required. *)
Definition defaultExpr : Expr :=
  And (Leaf (MinPercent 100 WitnessTypeBatch)) (Leaf (MinPercent 100 WitnessTypeSystem)).

(** *** Evaluate *)

(** Modelled from the spec: the role set [W] of [Evaluate] — the proofs of
    one role. The [LogRequired] restriction is placed as the repository's
    [TestEvaluate] cases fix it (tests, lines 134 to 236): a witness without
    a log stays in [W], but its proof is not counted. Removing it from [W]
    instead, as the spec's wording reads, would make the cases "default
    policy fails with log required" and "policy(50% batch and 50% system)
    fails with log required" evaluate to true, where the tests expect false. *)
Definition roleSet (role : WitnessType) (proofs : list WitnessProof) : list WitnessProof :=
  filter (fun wp => wtype_eqb (WType (WPWitness wp)) role) proofs.

(** Modelled from the spec: a proof counts when it is present and, under
    [LogRequired], its witness has a log. *)
Definition counts (logRequired : bool) (wp : WitnessProof) : bool :=
  proofPresent wp && (negb logRequired || HasLog (WPWitness wp)).

Definition countPresent (logRequired : bool) (W : list WitnessProof) : nat :=
  List.length (filter (counts logRequired) W).

(** Modelled from the spec: evaluation of a leaf. *)
Definition evalRule (logRequired : bool) (proofs : list WitnessProof) (r : Rule) : bool :=
  match r with
  | MinPercent p role =>
      let W := roleSet role proofs in
      (List.length W =? 0) || (p * List.length W <=? countPresent logRequired W * 100)
  | OutOf n role =>
      n <=? countPresent logRequired (roleSet role proofs)
  end.

Fixpoint evalExpr (logRequired : bool) (proofs : list WitnessProof) (e : Expr) : bool :=
  match e with
  | Leaf r => evalRule logRequired proofs r
  | And x y => evalExpr logRequired proofs x && evalExpr logRequired proofs y
  | Or x y => evalExpr logRequired proofs x || evalExpr logRequired proofs y
  end.

(** Modelled from the spec: [Evaluate] on a parsed policy. *)
Definition Evaluate (cfg : PolicyConfig) (proofs : list WitnessProof) : bool :=
  evalExpr (LogRequired cfg) proofs (PExpr cfg).


(** *** Select *)

(** Modelled from the spec: exclusion is by URI and role. *)
Definition isExcluded (exclude : list Witness) (w : Witness) : bool :=
  existsb (fun x => String.eqb (URI x) (URI w) && wtype_eqb (WType x) (WType w)) exclude.

(** Modelled from the spec: the [LogRequired] filter (Select step 2). *)
Definition logFiltered (cfg : PolicyConfig) (ws : list Witness) : list Witness :=
  filter (fun w => negb (LogRequired cfg) || HasLog w) ws.

(** Modelled from the spec: the eligible pool, without the excluded
    witnesses (Select steps 1 and 2). *)
Definition eligible (cfg : PolicyConfig) (witnesses exclude : list Witness) : list Witness :=
  filter (fun w => negb (isExcluded exclude w)) (logFiltered cfg witnesses).

Definition ofRole (role : WitnessType) (ws : list Witness) : list Witness :=
  filter (fun w => wtype_eqb (WType w) role) ws.

Definition leafRequirement (nb ns : nat) (r : Rule) : nat * nat :=
  match r with
  | MinPercent p WitnessTypeBatch => ((p * nb + 99) / 100, 0)
  | MinPercent p WitnessTypeSystem => (0, (p * ns + 99) / 100)
  | OutOf n WitnessTypeBatch => (n, 0)
  | OutOf n WitnessTypeSystem => (0, n)
  end.

Definition fits (nb ns : nat) (v : nat * nat) : bool :=
  (fst v <=? nb) && (snd v <=? ns).

Definition total (v : nat * nat) : nat := fst v + snd v.

(** Modelled from the spec: requirements of a policy tree. An AND sums the
    requirements per role; an OR picks the cheaper alternative (fewer total
    witnesses) that is satisfiable, i.e. fits the eligible pools [pb] and
    [ps], the left one on a tie; with neither satisfiable there is no
    requirement. An alternative that needs no witness at all is taken only
    when the other one needs none either or does not fit: the repository's
    test "policy with OR (system witnesses selected)" (tests, lines 1033 to
    1053) selects the one system witness for [MinPercent(50,system) OR
    MinPercent(50,batch)] over no batch witness, where the batch branch
    needs no witness. *)
Fixpoint requirement (nb ns pb ps : nat) (e : Expr) : option (nat * nat) :=
  match e with
  | Leaf r => Some (leafRequirement nb ns r)
  | And x y =>
      match requirement nb ns pb ps x, requirement nb ns pb ps y with
      | Some a, Some b => Some (fst a + fst b, snd a + snd b)
      | _, _ => None
      end
  | Or x y =>
      let sat v := match v with
                   | Some a => if fits pb ps a then Some a else None
                   | None => None
                   end in
      match sat (requirement nb ns pb ps x), sat (requirement nb ns pb ps y) with
      | Some a, Some b =>
          if total a =? 0 then (if total b =? 0 then Some a else Some b)
          else if total b =? 0 then Some a
          else if total b <? total a then Some b else Some a
      | Some a, None => Some a
      | None, Some b => Some b
      | None, None => None
      end
  end.

Definition nat_to_string (n : nat) : string :=
  NilEmpty.string_of_uint (Nat.to_uint n).

Definition unableToSelect (n m : nat) : string :=
  ("unable to select " ++ nat_to_string n ++ " witnesses from witness array of length "
   ++ nat_to_string m)%string.

(** Modelled from the spec: [Select(witnesses, exclude...)] for a parsed
    policy — steps 1 to 4 (the batch witnesses first, then the system ones,
    each in input order). The spec's merging of witnesses that appear in
    both roles is not modelled: it does not say what it changes, and the
    repository's test with a witness in both roles expects it twice. *)
Definition Select (cfg : PolicyConfig) (witnesses exclude : list Witness)
  : result (list Witness) :=
  let elig := eligible cfg witnesses exclude in
  let eb := ofRole WitnessTypeBatch elig in
  let es := ofRole WitnessTypeSystem elig in
  let nb := List.length (ofRole WitnessTypeBatch (logFiltered cfg witnesses)) in
  let ns := List.length (ofRole WitnessTypeSystem (logFiltered cfg witnesses)) in
  let pb := List.length eb in
  let ps := List.length es in
  match requirement nb ns pb ps (PExpr cfg) with
  | None => Err "witness policy cannot be satisfied"%string
  | Some (rb, rs) =>
      if pb <? rb then Err (unableToSelect rb pb)
      else if ps <? rs then Err (unableToSelect rs ps)
      else Ok (firstn rb eb ++ firstn rs es)
  end.

(** Evaluating as if exactly the marked witnesses had a proof: the witness
    proof list built from the witnesses and a marking. *)
Definition someProof : list Byte.byte := [Byte.x01].









(** *** The policy parser [config.Parse] *)

(** Modelled from the spec: tokens are separated by white space. *)
Definition isWS (c : ascii) : bool :=
  Ascii.eqb c " "%char || Ascii.eqb c "009"%char || Ascii.eqb c "010"%char
  || Ascii.eqb c "013"%char.

Fixpoint splitWS (cur : list ascii) (l : list ascii) : list (list ascii) :=
  match l with
  | [] => match cur with [] => [] | _ => [rev cur] end
  | c :: t =>
      if isWS c then
        match cur with [] => splitWS [] t | _ => rev cur :: splitWS [] t end
      else splitWS (c :: cur) t
  end.

Definition tokenize (s : string) : list string :=
  map string_of_list_ascii (splitWS [] (list_ascii_of_string s)).

(** A token's operator name is the text before its first '('; the
    arguments are the text after it, when there is one. *)
Fixpoint splitOpAux (l : list ascii) : list ascii * option (list ascii) :=
  match l with
  | [] => ([], None)
  | c :: t =>
      if Ascii.eqb c "("%char then ([], Some t)
      else let '(n, a) := splitOpAux t in (c :: n, a)
  end.

Definition operatorName (t : string) : string :=
  string_of_list_ascii (fst (splitOpAux (list_ascii_of_string t))).

Definition operatorArgs (t : string) : option (list ascii) :=
  snd (splitOpAux (list_ascii_of_string t)).

Definition supportedOperators : list string :=
  ["MinPercent"; "OutOf"; "AND"; "OR"; "LogRequired"]%string.

Definition unknownOperator (t : string) : bool :=
  negb (existsb (String.eqb (operatorName t)) supportedOperators).

Inductive Token :=
| TRule (r : Rule)
| TAnd
| TOr
| TLog.

Definition digitValue (c : ascii) : option nat :=
  let n := nat_of_ascii c in
  if (48 <=? n) && (n <=? 57) then Some (n - 48) else None.

Fixpoint digitsAux (acc : nat) (l : list ascii) : option nat :=
  match l with
  | [] => Some acc
  | c :: t => match digitValue c with
              | Some d => digitsAux (acc * 10 + d) t
              | None => None
              end
  end.

(** INT: an optional minus sign and at least one decimal digit. *)
Definition parseInt (l : list ascii) : option Z :=
  match l with
  | [] => None
  | c :: t =>
      if Ascii.eqb c "-"%char then
        match t with
        | [] => None
        | _ => option_map (fun n => Z.opp (Z.of_nat n)) (digitsAux 0 t)
        end
      else option_map Z.of_nat (digitsAux 0 l)
  end.

Definition parseRole (l : list ascii) : option WitnessType :=
  let s := string_of_list_ascii l in
  if String.eqb s "batch" then Some WitnessTypeBatch
  else if String.eqb s "system" then Some WitnessTypeSystem
  else None.

Fixpoint splitComma (l : list ascii) : list ascii * option (list ascii) :=
  match l with
  | [] => ([], None)
  | c :: t =>
      if Ascii.eqb c ","%char then ([], Some t)
      else let '(a, b) := splitComma t in (c :: a, b)
  end.

(** The arguments "INT,ROLE)" of a rule. *)
Definition parseArgs (l : list ascii) : option (Z * WitnessType) :=
  match rev l with
  | c :: rl =>
      if Ascii.eqb c ")"%char then
        match splitComma (rev rl) with
        | (i, Some r) =>
            match parseInt i, parseRole r with
            | Some n, Some role => Some (n, role)
            | _, _ => None
            end
        | _ => None
        end
      else None
  | [] => None
  end.

(** Modelled from the spec: one token. Unknown operators fail with
    [rule not supported: <token>]; a [MinPercent] value outside [0,100] or
    a negative [OutOf] value is a parse error. *)
Definition lexToken (t : string) : result Token :=
  let name := operatorName t in
  match operatorArgs t with
  | None =>
      if String.eqb name "AND" then Ok TAnd
      else if String.eqb name "OR" then Ok TOr
      else if String.eqb name "LogRequired" then Ok TLog
      else if unknownOperator t then Err ("rule not supported: " ++ t)%string
      else Err ("invalid rule: " ++ t)%string
  | Some args =>
      if String.eqb name "MinPercent" then
        match parseArgs args with
        | Some (n, role) =>
            if (0 <=? n)%Z && (n <=? 100)%Z then Ok (TRule (MinPercent (Z.to_nat n) role))
            else Err ("invalid percentage in rule: " ++ t)%string
        | None => Err ("invalid rule: " ++ t)%string
        end
      else if String.eqb name "OutOf" then
        match parseArgs args with
        | Some (n, role) =>
            if (0 <=? n)%Z then Ok (TRule (OutOf (Z.to_nat n) role))
            else Err ("invalid number of witnesses in rule: " ++ t)%string
        | None => Err ("invalid rule: " ++ t)%string
        end
      else if unknownOperator t then Err ("rule not supported: " ++ t)%string
      else Err ("invalid rule: " ++ t)%string
  end.

(** Lexing proceeds token by token and stops at the first error. *)
Fixpoint lexAll (ts : list string) : result (list Token) :=
  match ts with
  | [] => Ok []
  | t :: rest =>
      match lexToken t with
      | Err e => Err e
      | Ok k => match lexAll rest with Err e => Err e | Ok ks => Ok (k :: ks) end
      end
  end.

Definition invalidPolicy := "invalid witness policy"%string.

Definition closeOr (accOr : option Expr) (accAnd : Expr) : Expr :=
  match accOr with None => accAnd | Some o => Or o accAnd end.

(** Expr := Term (("AND" | "OR") Term)*, left-associative, AND binding
    tighter than OR: [accOr] holds the OR chain so far and [accAnd] the
    current AND group. *)
Fixpoint chain (accOr : option Expr) (accAnd : Expr) (ts : list Token) : result Expr :=
  match ts with
  | [] => Ok (closeOr accOr accAnd)
  | TAnd :: TRule r :: rest => chain accOr (And accAnd (Leaf r)) rest
  | TOr :: TRule r :: rest => chain (Some (closeOr accOr accAnd)) (Leaf r) rest
  | _ => Err invalidPolicy
  end.

(** An empty expression is the default one (the repository's tests parse
    ["LogRequired"] alone as the default policy with a log required). *)
Definition parseExpr (ts : list Token) : result Expr :=
  match ts with
  | [] => Ok defaultExpr
  | TRule r :: rest => chain None (Leaf r) rest
  | _ => Err invalidPolicy
  end.

(** Modelled from the spec: [config.Parse]. Policy := Expr ("LogRequired")?. *)
Definition Parse (policy : string) : result PolicyConfig :=
  match lexAll (tokenize policy) with
  | Err e => Err e
  | Ok ks =>
      let '(body, logReq) :=
        match rev ks with
        | TLog :: rrest => (rev rrest, true)
        | _ => (ks, false)
        end in
      match parseExpr body with
      | Err e => Err e
      | Ok e => Ok (mkPolicyConfig e logReq)
      end
  end.

(** *** getWitnessPolicyConfig *)

(** A value held by the policy cache, as a Go [interface{}]: nil, a string,
    or a value of another dynamic type (named as [%T] prints it). *)
Inductive CacheValue :=
| VNil
| VString (s : string)
| VOther (typeName : string).

(** Modelled from the spec: [getWitnessPolicyConfig], given what the
    cache's [Get] returned (a value and an error). The text for a [Get]
    error is the one the repository's tests expect. *)
Definition getWitnessPolicyConfig (get : CacheValue * option string) : result PolicyConfig :=
  match get with
  | (_, Some e) => Err ("failed to retrieve policy from policy cache: " ++ e)%string
  | (VNil, None) => Err "failed to retrieve policy from policy cache (nil value)"%string
  | (VOther T, None) =>
      Err ("unexpected interface '" ++ T ++ "' for witness policy value in policy cache")%string
  | (VString s, None) => Parse s
  end.

(** Substring test, for error messages. *)
Fixpoint containsb (s sub : string) : bool :=
  String.prefix sub s ||
  match s with
  | EmptyString => false
  | String _ s' => containsb s' sub
  end.

End Policy.

(** ** AMQP pub/sub [pkg/pubsub/amqp]: redelivery. Only the package's test
    is in the repository's sources; the interval and the redelivery cycle
    are modelled from the spec (section 4.3). Durations are exact rationals
    of nanoseconds. *)
Module AMQP.
Import QArith.

Record Config := mkConfig {
  MaxRedeliveryAttempts : nat;
  RedeliveryInitialInterval : Q;
  RedeliveryMultiplier : Q;
  MaxRedeliveryInterval : Q
}.

(** Modelled from the spec: [getRedeliveryInterval]. *)
Definition getRedeliveryInterval (cfg : Config) (attempt : nat) : Q :=
  match attempt with
  | O => 0
  | S k =>
      let backoff := RedeliveryInitialInterval cfg * RedeliveryMultiplier cfg ^ Z.of_nat k in
      if Qle_bool backoff (MaxRedeliveryInterval cfg) then backoff
      else MaxRedeliveryInterval cfg
  end.

(** Where a published message is: in the primary queue with its
    [delivery-attempt] header, at the (always nacking) consumer, in the
    redelivery queue with a per-message TTL, or dropped. *)
Inductive Location :=
| InQueue (attempt : nat)
| AtConsumer (attempt : nat)
| InRedelivery (attempt : nat) (ttl : Q)
| Dropped.

Inductive Event :=
| Dispatched (attempt : nat)
| Nacked (attempt : nat)
| Republished (attempt : nat)
| DroppedMsg (attempt : nat).

(** Modelled from the spec: one step of the redelivery cycle for a
    consumer that Nacks every delivery. A Nack puts the message in the
    redelivery queue with TTL [interval(attempt + 1)]; on expiry it is
    republished with the header incremented. Redelivery halts when the
    header would exceed [MaxRedeliveryAttempts]: the message is dropped. *)
Definition step (cfg : Config) (l : Location) : option (Event * Location) :=
  match l with
  | InQueue a => Some (Dispatched a, AtConsumer a)
  | AtConsumer a =>
      if MaxRedeliveryAttempts cfg <? S a then Some (DroppedMsg a, Dropped)
      else Some (Nacked a, InRedelivery (S a) (getRedeliveryInterval cfg (S a)))
  | InRedelivery a _ => Some (Republished a, InQueue a)
  | Dropped => None
  end.

(** Runs of the cycle, with the events they produce. *)
Inductive run (cfg : Config) : Location -> list Event -> Location -> Prop :=
| RunNil : forall l, run cfg l [] l
| RunStep : forall l e l' tr l'',
    step cfg l = Some (e, l') -> run cfg l' tr l'' -> run cfg l (e :: tr) l''.

Definition isDispatch (e : Event) : bool :=
  match e with Dispatched _ => true | _ => false end.

Definition dispatches (tr : list Event) : nat := List.length (filter isDispatch tr).

(** A freshly published message: primary queue, no [delivery-attempt]. *)
Definition published : Location := InQueue 0.

Definition final (cfg : Config) (l : Location) : Prop := step cfg l = None.

End AMQP.

(** * Properties *)

Module HttpSubscriberFacts.
Import HttpSubscriber.

Lemma authenticate_ok (r : Request) :
  authenticated r -> exists actor, authenticate r = AuthOk actor.
Proof.
  unfold authenticated, authenticate.
  intros [Ht | [actor Hv]].
  - rewrite Ht. eauto.
  - destruct (tokenVerified r); [eauto|]. rewrite Hv. eauto.
Qed.

Definition m0 := mkMessage "m0" "p" [].
Definition m1 := mkMessage "m1" "p" [].
Definition okRequest := mkRequest true (Ok (false, None)) (Ok m1).

(** C1 (counterexample): the subscriber of [New 1] holds one message in
    [pubChan], which is full; an authenticated request whose body
    unmarshals does not get a 503: the handler blocks on the send. *)
Lemma C1_full_buffer_blocks :
  publish (New 1) m0 = PublishOk (mkSubscriber StateStarted 1 [m0]) /\
  authenticated okRequest /\ unmarshal okRequest = Ok m1 /\
  handleMessage (mkSubscriber StateStarted 1 [m0]) okRequest = BlockedOnSend /\
  handleMessage (mkSubscriber StateStarted 1 [m0]) okRequest
    <> Responded StatusServiceUnavailable.
Proof.
  repeat split; [left; reflexivity | discriminate].
Qed.

(** C1 (amended): for an authenticated request whose body unmarshals, the
    handler responds 503 exactly when the service is not started; when it is
    started and [pubChan] is full the handler blocks on the send, and
    otherwise the message is appended to [pubChan] and the handler goes on
    to wait for its acknowledgement. *)
Theorem C1_publish_outcome (s : Subscriber) (r : Request) (msg : Message) :
  authenticated r -> unmarshal r = Ok msg ->
  (lcState s <> StateStarted -> handleMessage s r = Responded StatusServiceUnavailable) /\
  (lcState s = StateStarted -> BufferSize s <= List.length (pubChan s) ->
     handleMessage s r = BlockedOnSend) /\
  (lcState s = StateStarted -> List.length (pubChan s) < BufferSize s ->
     exists s' m', handleMessage s r = Queued s' m' /\ pubChan s' = pubChan s ++ [m']).
Proof.
  intros Hauth Hun.
  destruct (authenticate_ok r Hauth) as [actor Ha].
  unfold handleMessage, publish. rewrite Ha, Hun.
  repeat split.
  - intros Hs. destruct (lcState s); [reflexivity| congruence |reflexivity|reflexivity].
  - intros Hs Hle. rewrite Hs. simpl.
    destruct (Nat.ltb_spec (List.length (pubChan s)) (BufferSize s)); [lia|reflexivity].
  - intros Hs Hlt. rewrite Hs. simpl.
    destruct (Nat.ltb_spec (List.length (pubChan s)) (BufferSize s)); [|lia].
    eexists _, _. split; reflexivity.
Qed.

Lemma C1_publish_outcome_witness :
  authenticated okRequest /\ unmarshal okRequest = Ok m1 /\
  handleMessage (mkSubscriber StateStarted 1 [m0]) okRequest = BlockedOnSend.
Proof.
  split; [left; reflexivity|]. split; [reflexivity|].
  apply (C1_publish_outcome (mkSubscriber StateStarted 1 [m0]) okRequest m1);
    [left; reflexivity | reflexivity | reflexivity | simpl; lia].
Defined.

(** C6 (counterexample): the message is acked, then the service is stopped,
    both before the handler reaches its [select]; the handler may answer
    503 although the Ack came first. *)
Lemma C6_ack_then_stop_may_503 :
  hd_error [CaseAcked; CaseStopped] = Some CaseAcked /\
  In StatusServiceUnavailable (respondOutcomes [CaseAcked; CaseStopped] 2) /\
  In StatusOK (respondOutcomes [CaseAcked; CaseStopped] 2).
Proof.
  simpl. unfold StatusServiceUnavailable, StatusOK. repeat split; auto.
Qed.

Lemma firstn_nil_inv {A} (k : nat) (l : list A) :
  l <> [] -> firstn k l = [] -> k = 0.
Proof.
  intros Hl H. destruct k; [reflexivity|]. destruct l; [congruence| discriminate].
Qed.

(** C6 (amended): once the signals have started to fire, [respond] writes
    exactly one status, that of a signal which had fired by the time the
    [select] ran, with 200 for Ack, 500 for Nack or a canceled request
    context, 503 for a stopped service; when the handler is already waiting
    as the first signal fires (or exactly one has fired before), the
    status is that of the first signal. *)
Theorem C6_respond_status (evs : list SelectCase) (k : nat) :
  evs <> [] ->
  respondOutcomes evs k <> [] /\
  (forall st, In st (respondOutcomes evs k) ->
     exists c, In c (firstn (Nat.max k 1) evs) /\ st = respondStatus c) /\
  (k <= 1 -> forall c, hd_error evs = Some c -> respondOutcomes evs k = [respondStatus c]).
Proof.
  intros Hne. unfold respondOutcomes, selectable.
  destruct (firstn k evs) as [|c0 rdy] eqn:Hf.
  - assert (k = 0) by (eapply firstn_nil_inv; eauto). subst k.
    destruct evs as [|e evs']; [congruence|]. simpl.
    repeat split.
    + discriminate.
    + intros st [Hst|[]]. exists e. simpl. auto.
    + intros _ c Hc. inversion Hc. reflexivity.
  - repeat split.
    + discriminate.
    + intros st Hin. apply in_map_iff in Hin. destruct Hin as [c [Hc Hin]].
      exists c. split; [|auto].
      destruct k as [|k']; [discriminate|].
      replace (Nat.max (S k') 1) with (S k') by lia. rewrite Hf. exact Hin.
    + intros Hk c Hc.
      destruct k as [|[|k']]; [discriminate| |lia].
      destruct evs as [|e evs']; [discriminate|]. simpl in Hf, Hc.
      inversion Hf; subst. inversion Hc; subst. reflexivity.
Qed.

Lemma C6_respond_status_witness :
  respondOutcomes [CaseNacked; CaseStopped] 0 = [StatusInternalServerError].
Proof.
  destruct (C6_respond_status [CaseNacked; CaseStopped] 0) as (_ & _ & H);
    [discriminate|].
  apply (H (le_S _ _ (le_n 0)) CaseNacked). reflexivity.
Defined.

(** The invariant of the goroutines' interleaving. *)
Definition GInv (s : GState) : Prop :=
  gPanic s = false /\
  (gDoneClosed s = true <-> gPubPC s = PExit) /\
  (gDoneClosed s = true -> gStoppedClosed s = true) /\
  (gStoppedClosed s = true <-> gStopPC s <> SIdle) /\
  (gMsgClosed s = true <-> gStopPC s = SFinished) /\
  (gStopPC s = SCloseMsg \/ gStopPC s = SFinished -> gDoneClosed s = true).

Lemma GInv_init (cap : nat) : GInv (initG cap).
Proof.
  unfold GInv, initG; simpl.
  repeat split; try discriminate; try congruence; intros []; discriminate.
Qed.

Ltac gcases :=
  repeat match goal with
         | b : bool |- _ => destruct b
         | p : PubPC |- _ => destruct p
         | p : StopPC |- _ => destruct p
         end;
  simpl in *; intuition (try congruence; try discriminate).

Lemma GInv_step (s s' : GState) : GInv s -> gstep s s' -> GInv s'.
Proof.
  unfold GInv. intros Hinv Hst.
  inversion Hst; subst; simpl in *; gcases.
Qed.

(** C7: in every interleaving of the handlers, the [publisher] goroutine,
    the consumer and [stop], no goroutine sends on (or closes) a closed
    channel, and [msgChan] is closed only after the publisher has observed
    the stop signal, closed [done] and returned. *)
Theorem C7_no_send_on_closed (cap : nat) (s : GState) :
  greach cap s ->
  gPanic s = false /\
  (gMsgClosed s = true -> gPubPC s = PExit /\ gDoneClosed s = true).
Proof.
  intros Hr.
  assert (Hi : GInv s).
  { induction Hr; [apply GInv_init | eapply GInv_step; eauto]. }
  destruct Hi as (Hp & [Hd1 Hd2] & Hds & _ & [Hm1 _] & Hsd).
  split; [exact Hp|]. intros Hm.
  assert (Hd : gDoneClosed s = true) by (apply Hsd; right; apply Hm1; exact Hm).
  split; [apply Hd1; exact Hd | exact Hd].
Qed.

(** A run: a handler queues a message, [stop] begins, the publisher takes
    the message, sends it, sees the stop signal and exits; [stop] closes
    [msgChan]. *)
Lemma runStates_reach : greach 1 (mkG [] [m0] 1 true true true PExit SFinished false).
Proof.
  assert (H1 : greach 1 (mkG [m0] [] 1 false false false PLoop SIdle false)).
  { refine (ReachStep 1 _ _ (ReachInit 1) _).
    exact (StepHandlerSend [] [] 1 false false false PLoop SIdle false m0 (le_n 1)). }
  assert (H2 : greach 1 (mkG [m0] [] 1 false true false PLoop SWaitDone false)).
  { refine (ReachStep 1 _ _ H1 _).
    exact (StepStopClose [m0] [] 1 false false false PLoop false). }
  assert (H3 : greach 1 (mkG [] [] 1 false true false (PSend m0) SWaitDone false)).
  { refine (ReachStep 1 _ _ H2 _).
    exact (StepPubRecv m0 [] [] 1 false true false SWaitDone false). }
  assert (H4 : greach 1 (mkG [] [m0] 1 false true false PLoop SWaitDone false)).
  { refine (ReachStep 1 _ _ H3 _).
    exact (StepPubSend m0 [] [] 1 true false SWaitDone false (le_n 1)). }
  assert (H5 : greach 1 (mkG [] [m0] 1 false true true PExit SWaitDone false)).
  { refine (ReachStep 1 _ _ H4 _).
    exact (StepPubStop [] [m0] 1 false false SWaitDone false). }
  assert (H6 : greach 1 (mkG [] [m0] 1 false true true PExit SCloseMsg false)).
  { refine (ReachStep 1 _ _ H5 _).
    exact (StepStopWait [] [m0] 1 false PExit false). }
  refine (ReachStep 1 _ _ H6 _).
  exact (StepStopCloseMsg [] [m0] 1 false true true PExit false).
Qed.

Lemma C7_no_send_on_closed_witness :
  gPanic (mkG [] [m0] 1 true true true PExit SFinished false) = false /\
  (gMsgClosed (mkG [] [m0] 1 true true true PExit SFinished false) = true ->
   gPubPC (mkG [] [m0] 1 true true true PExit SFinished false) = PExit /\
   gDoneClosed (mkG [] [m0] 1 true true true PExit SFinished false) = true).
Proof.
  apply (C7_no_send_on_closed 1); exact runStates_reach.
Defined.

End HttpSubscriberFacts.

Module PolicyRestHandlerFacts.
Import PolicyRestHandler.

(** C10: a body that cannot be read, or that does not parse as a witness
    policy, is answered 400 with no write to the config store; the store's
    [Put] is invoked (once, with the policy key and the body) only after a
    successful parse; a [Put] failure is answered 500. *)
Theorem C10_bad_policy_not_stored (PolicyConfig : Type)
    (Parse : string -> result PolicyConfig) (key : string)
    (req : ReadResult) (put : string -> string -> option string) :
  let out := handle PolicyConfig Parse key req put in
  ((exists e, req = ReadErr e) -> status (fst out) = StatusBadRequest /\ snd out = []) /\
  (forall b e, req = ReadOk b -> Parse b = Err e ->
     status (fst out) = StatusBadRequest /\ snd out = []) /\
  (snd out <> [] ->
     exists b c, req = ReadOk b /\ Parse b = Ok c /\ snd out = [(key, b)]) /\
  (forall b c e, req = ReadOk b -> Parse b = Ok c -> put key b = Some e ->
     status (fst out) = StatusInternalServerError).
Proof.
  intros out. subst out. unfold handle.
  split; [|split; [|split]].
  - intros [e He]. subst req. split; reflexivity.
  - intros b e Hb He. subst req. rewrite He. split; reflexivity.
  - destruct req as [b|e]; [|simpl; congruence].
    destruct (Parse b) as [c|e] eqn:Hp; [|simpl; congruence].
    intros _. exists b, c. split; [reflexivity|]. split; [exact Hp|].
    destruct (put key b); reflexivity.
  - intros b c e Hb Hp Hput. subst req. rewrite Hp, Hput. reflexivity.
Qed.

Definition parseNonEmpty (s : string) : result unit :=
  match s with EmptyString => Err "empty policy"%string | _ => Ok tt end.

Lemma C10_bad_policy_not_stored_witness :
  status (fst (handle unit parseNonEmpty "witness-policy"%string (ReadOk EmptyString) (fun _ _ => None)))
    = StatusBadRequest /\
  snd (handle unit parseNonEmpty "witness-policy"%string (ReadOk EmptyString) (fun _ _ => None)) = [].
Proof.
  destruct (C10_bad_policy_not_stored unit parseNonEmpty "witness-policy"%string (ReadOk EmptyString)
              (fun _ _ => None)) as (_ & H & _).
  apply (H EmptyString "empty policy"%string); reflexivity.
Defined.

End PolicyRestHandlerFacts.

Module PolicyFacts.
Import Policy.

(** The repository's [TestEvaluate] and [TestSelect] cases, on the model. *)
Definition bw := mkWitness WitnessTypeBatch "https://batch.com/service" false.
Definition sw := mkWitness WitnessTypeSystem "https://system.com/service" false.

Example evaluate_no_system_witnesses :
  match Parse "MinPercent(50,system) AND MinPercent(50,batch)" with
  | Ok cfg => Evaluate cfg [mkWitnessProof bw someProof]
  | Err _ => false
  end = true.
Proof. vm_compute. reflexivity. Qed.

Example evaluate_default_missing_proof :
  match Parse EmptyString with
  | Ok cfg => Evaluate cfg [mkWitnessProof bw someProof; mkWitnessProof sw []]
  | Err _ => true
  end = false.
Proof. vm_compute. reflexivity. Qed.

Example select_excluded_system_witness :
  match Parse EmptyString with
  | Ok cfg => Select cfg [bw; sw] [sw]
  | Err e => Err e
  end = Err "unable to select 1 witnesses from witness array of length 0"%string.
Proof. vm_compute. reflexivity. Qed.

Definition bl1 := mkWitness WitnessTypeBatch "https://batch.com/service" true.
Definition bn1 := mkWitness WitnessTypeBatch "https://batch.com/service" false.
Definition bn2 := mkWitness WitnessTypeBatch "https://second.batch.com/service" false.
Definition sl1 := mkWitness WitnessTypeSystem "https://system.com/service" true.
Definition sl2 := mkWitness WitnessTypeSystem "https://second.system.com/service" true.
Definition sl3 := mkWitness WitnessTypeSystem "https://third.system.com/service" true.
Definition sb := mkWitness WitnessTypeSystem "https://batch.com/service" false.

Definition evalTest (policy : string) (proofs : list (Witness * bool)) : option bool :=
  match Parse policy with
  | Ok cfg => Some (Evaluate cfg (map (fun p : Witness * bool => mkWitnessProof (fst p)
                                          (if snd p then someProof else [])) proofs))
  | Err _ => None
  end.

Definition selectTest (policy : string) (ws exclude : list Witness) : result (list Witness) :=
  match Parse policy with
  | Ok cfg => Select cfg ws exclude
  | Err e => Err e
  end.

Example evaluate_log_required_tests :
  evalTest "LogRequired" [(bl1, true); (sl1, true)] = Some true /\
  evalTest "LogRequired" [(bn1, true); (sl1, true)] = Some false /\
  evalTest "MinPercent(50,batch) AND MinPercent(50,system) LogRequired"
    [(bl1, true); (bn2, true); (sl1, true); (mkWitness WitnessTypeSystem
       "https://system.com/service" false, true)] = Some true /\
  evalTest "MinPercent(50,batch) AND MinPercent(50,system) LogRequired"
    [(sw, true)] = Some false /\
  evalTest "OutOf(1,system) OR OutOf(1,batch) LogRequired" [(sw, true); (bl1, true)]
    = Some true /\
  evalTest "OutOf(1,system) AND OutOf(1,batch) LogRequired" [(sl1, true); (bl1, true)]
    = Some true /\
  evalTest "OutOf(1,system) AND OutOf(1,batch) LogRequired" [(sw, true); (bl1, true)]
    = Some false.
Proof. vm_compute. repeat split. Qed.

Example select_tests :
  selectTest EmptyString [bw; sw] [] = Ok [bw; sw] /\
  (match selectTest EmptyString [bw; sw; sb] [] with
   | Ok l => List.length l | Err _ => 0 end) = 3 /\
  selectTest EmptyString [sw] [] = Ok [sw] /\
  selectTest "MinPercent(50,system) AND MinPercent(50,batch) LogRequired"
    [sl1; sl2; sl3; bl1; bn2] [] = Ok [bl1; sl1; sl2] /\
  selectTest "OutOf(2,system) AND OutOf(1,batch) LogRequired"
    [sl1; sl2; sl3; bl1; bn2] [] = Ok [bl1; sl1; sl2] /\
  selectTest "MinPercent(50,system) OR MinPercent(50,batch) LogRequired"
    [sl1; sl2; sl3; bl1; bn2] [] = Ok [bl1] /\
  selectTest "MinPercent(50,system) OR MinPercent(50,batch) LogRequired" [sl1] [] = Ok [sl1] /\
  selectTest EmptyString [bw; mkWitness WitnessTypeBatch "https://second.batch.com/service" false; sw]
    [bw] = Err "unable to select 2 witnesses from witness array of length 1"%string /\
  selectTest "OutOf(2,system) AND OutOf(1,batch) LogRequired" [sl1; bl1] []
    = Err "unable to select 2 witnesses from witness array of length 1"%string /\
  selectTest "OutOf(1,system) AND OutOf(2,batch) LogRequired" [sl1; bl1] []
    = Err "unable to select 2 witnesses from witness array of length 1"%string.
Proof. vm_compute. repeat split. Qed.

Example parse_rule_not_supported :
  Parse "Test(a,b)" = Err "rule not supported: Test(a,b)"%string.
Proof. vm_compute. reflexivity. Qed.

Lemma prefix_refl (s : string) : String.prefix s s = true.
Proof.
  induction s as [|a s IH]; simpl; [reflexivity|].
  destruct (ascii_dec a a) as [_|n]; [exact IH | congruence].
Qed.

Lemma containsb_refl (s : string) : containsb s s = true.
Proof.
  destruct s as [|a s]; [reflexivity|].
  change (String.prefix (String a s) (String a s) || containsb s (String a s) = true).
  rewrite prefix_refl. reflexivity.
Qed.

(** *** Leaves *)

(** C4 (counterexample): the repository's test "policy(50% batch and 50%
    system) fails with log required" — one system witness with a proof but
    no log. Removing the witnesses without a log leaves no system witness,
    yet the [MinPercent(50,system)] leaf is false, and so is the policy. *)
Lemma C4_log_filtered_empty_set :
  filter (fun wp => wtype_eqb (WType (WPWitness wp)) WitnessTypeSystem
                    && HasLog (WPWitness wp)) [mkWitnessProof sw someProof] = [] /\
  evalExpr true [mkWitnessProof sw someProof] (Leaf (MinPercent 50 WitnessTypeSystem))
    = false /\
  match Parse "MinPercent(50,batch) AND MinPercent(50,system) LogRequired" with
  | Ok cfg => Evaluate cfg [mkWitnessProof sw someProof]
  | Err _ => true
  end = false.
Proof. vm_compute. repeat split. Qed.

(** C4 (amended): a [MinPercent(p, role)] leaf holds iff the witnesses [W]
    of that role (all of them, with or without a log) are none, or the
    proofs in [W] that are present — and, under [LogRequired], come from a
    witness with a log — times 100 reach [p * |W|]. *)
Theorem C4_minpercent_leaf (lr : bool) (p : nat) (role : WitnessType)
    (proofs : list WitnessProof) :
  let W := filter (fun wp => wtype_eqb (WType (WPWitness wp)) role) proofs in
  evalExpr lr proofs (Leaf (MinPercent p role)) = true <->
  (W = [] \/
   p * List.length W <=
     List.length (filter (fun wp => proofPresent wp && (negb lr || HasLog (WPWitness wp))) W)
     * 100).
Proof.
  intros W. simpl. unfold countPresent, counts. fold W.
  rewrite Bool.orb_true_iff, Nat.eqb_eq, Nat.leb_le, length_zero_iff_nil.
  reflexivity.
Qed.

(** *** getWitnessPolicyConfig *)

(** C8: a nil value from a successful cache [Get] yields the "(nil value)"
    error; a value of another type [T] than string yields the "unexpected
    interface 'T'" error. *)
Theorem C8_cache_value_errors :
  (exists e, getWitnessPolicyConfig (VNil, None) = Err e /\
     containsb e "failed to retrieve policy from policy cache (nil value)" = true) /\
  (forall T, exists e, getWitnessPolicyConfig (VOther T, None) = Err e /\
     containsb e ("unexpected interface '" ++ T
                  ++ "' for witness policy value in policy cache")%string = true).
Proof.
  split.
  - eexists. split; [reflexivity | apply containsb_refl].
  - intros T. eexists. split; [reflexivity | apply containsb_refl].
Qed.

(** *** Parse *)

Lemma lexToken_unknown (t : string) :
  unknownOperator t = true -> lexToken t = Err ("rule not supported: " ++ t)%string.
Proof.
  intros Hu. pose proof Hu as H.
  unfold unknownOperator, supportedOperators in H. simpl in H.
  apply Bool.negb_true_iff in H.
  repeat rewrite Bool.orb_false_iff in H.
  destruct H as (E1 & E2 & E3 & E4 & E5 & _).
  unfold lexToken. rewrite Hu.
  destruct (operatorArgs t); rewrite ?E1, ?E2, ?E3, ?E4, ?E5; reflexivity.
Qed.

Lemma lexAll_app_err (pre post : list string) (t e : string) :
  (forall u, In u pre -> exists k, lexToken u = Ok k) ->
  lexToken t = Err e -> lexAll (pre ++ t :: post) = Err e.
Proof.
  intros Hpre Ht. induction pre as [|u pre IH]; simpl.
  - rewrite Ht. reflexivity.
  - destruct (Hpre u (or_introl eq_refl)) as [k Hk]. rewrite Hk.
    rewrite IH; [reflexivity|]. intros v Hv. apply Hpre. right. exact Hv.
Qed.

Lemma lexAll_ok_in (ts : list string) (ks : list Token) :
  lexAll ts = Ok ks -> forall t, In t ts -> exists k, lexToken t = Ok k.
Proof.
  revert ks. induction ts as [|u ts IH]; simpl; intros ks H t Hin; [contradiction|].
  destruct (lexToken u) as [k|e] eqn:Hu; [|discriminate].
  destruct (lexAll ts) as [ks'|e] eqn:Hr; [|discriminate].
  destruct Hin as [<-|Hin]; [eauto | eapply IH; eauto].
Qed.

Lemma Parse_lex_err (s e : string) : lexAll (tokenize s) = Err e -> Parse s = Err e.
Proof. intros H. unfold Parse. rewrite H. reflexivity. Qed.

(** In the parser as modelled, which lexes the tokens from left to right
    and stops at the first error, an earlier malformed rule is reported
    before a later unsupported token. *)
Example parse_first_error_reported :
  Parse "MinPercent(101,batch) Test(a,b)"
    = Err "invalid percentage in rule: MinPercent(101,batch)"%string.
Proof. vm_compute. reflexivity. Qed.

(** A policy string with a token whose operator is not [MinPercent],
    [OutOf], [AND], [OR] or [LogRequired] never parses; the error is
    [rule not supported: <token>] for the first such token when every token
    before it is a well-formed rule, [AND], [OR] or [LogRequired]. *)
Lemma parse_unknown_token :
  (forall s t, In t (tokenize s) -> unknownOperator t = true ->
     exists e, Parse s = Err e) /\
  (forall s pre t post, tokenize s = pre ++ t :: post -> unknownOperator t = true ->
     (forall u, In u pre -> exists k, lexToken u = Ok k) ->
     Parse s = Err ("rule not supported: " ++ t)%string).
Proof.
  split.
  - intros s t Hin Hu. unfold Parse.
    destruct (lexAll (tokenize s)) as [ks|e] eqn:Hl; [|eauto].
    destruct (lexAll_ok_in _ _ Hl t Hin) as [k Hk].
    rewrite lexToken_unknown in Hk by exact Hu. discriminate.
  - intros s pre t post Hs Hu Hpre. apply Parse_lex_err. rewrite Hs.
    apply lexAll_app_err; [exact Hpre | apply lexToken_unknown; exact Hu].
Qed.

(** *** Select: evaluation through counts *)









(** *** Select: the returned marking *)





Section Marking.
Variable cfg : PolicyConfig.
Variable exclude : list Witness.
Let lr := LogRequired cfg.






End Marking.






Section Requirement.
Variables nb ns pb ps : nat.










End Requirement.











End PolicyFacts.

Module AMQPFacts.
Import QArith Qminmax AMQP.
Local Open Scope nat_scope.

(** The iterated step function: the run of at most [n] steps from [l]. *)
Fixpoint runFuel (cfg : Config) (n : nat) (l : Location) : list Event * Location :=
  match n with
  | O => ([], l)
  | S n' =>
      match step cfg l with
      | Some (e, l') => let r := runFuel cfg n' l' in (e :: fst r, snd r)
      | None => ([], l)
      end
  end.

(** Locations a run from [published] can reach: headers stay within
    [MaxRedeliveryAttempts]. *)
Definition okLoc (cfg : Config) (l : Location) : Prop :=
  match l with
  | InQueue a | AtConsumer a | InRedelivery a _ => a <= MaxRedeliveryAttempts cfg
  | Dropped => True
  end.

(** Dispatches still to come from a location. *)
Definition remaining (cfg : Config) (l : Location) : nat :=
  match l with
  | InQueue a | InRedelivery a _ => S (MaxRedeliveryAttempts cfg) - a
  | AtConsumer a => MaxRedeliveryAttempts cfg - a
  | Dropped => 0
  end.

(** Steps still to come from a location, up to the drop. *)
Definition stepsLeft (cfg : Config) (l : Location) : nat :=
  match l with
  | InQueue a => 3 * (MaxRedeliveryAttempts cfg - a) + 2
  | AtConsumer a => 3 * (MaxRedeliveryAttempts cfg - a) + 1
  | InRedelivery a _ => 3 * (MaxRedeliveryAttempts cfg - a) + 3
  | Dropped => 0
  end.

(** The test's configuration: five redelivery attempts, the defaults for
    the interval (2s, multiplier 1.5) and a 200ms maximum interval. *)
Definition testConfig : Config := mkConfig 5 2%Q (3 # 2) (1 # 5).

(** The interval test's configuration: the default 2s initial interval
    and 1.5 multiplier, with a ceiling above the values it checks. *)
Definition intervalTestConfig : Config := mkConfig 0 2%Q (3 # 2) 10%Q.

Lemma runFuel_run (cfg : Config) (n : nat) (l : Location) :
  run cfg l (fst (runFuel cfg n l)) (snd (runFuel cfg n l)).
Proof.
  revert l. induction n as [|n IH]; intros l; simpl; [apply RunNil|].
  destruct (step cfg l) as [[e l']|] eqn:Hs; simpl; [|apply RunNil].
  eapply RunStep; [exact Hs|apply IH].
Qed.

Lemma final_dropped (cfg : Config) (l : Location) : final cfg l -> l = Dropped.
Proof.
  unfold final. destruct l; simpl; try discriminate; [|reflexivity].
  destruct (_ <? _); discriminate.
Qed.

Lemma run_inv (cfg : Config) (l : Location) (tr : list Event) (l' : Location) :
  run cfg l tr l' -> okLoc cfg l ->
  (forall a, In (Dispatched a) tr -> a <= MaxRedeliveryAttempts cfg) /\
  dispatches tr + remaining cfg l' = remaining cfg l /\ okLoc cfg l'.
Proof.
  unfold dispatches.
  induction 1 as [l|l e l1 tr l2 Hs Hr IH]; intros Hok.
  - simpl. split; [tauto|]. split; [reflexivity|exact Hok].
  - destruct l as [a|a|a ttl|]; simpl in Hs, Hok.
    + injection Hs as <- <-. destruct (IH Hok) as [Hd [Hn Hl]].
      split; [intros b [Hb|Hb]; [injection Hb as <-; exact Hok|auto]|].
      split; [simpl in *; destruct a; lia|exact Hl].
    + destruct (Nat.ltb_spec (MaxRedeliveryAttempts cfg) (S a)).
      * injection Hs as <- <-. destruct (IH I) as [Hd [Hn Hl]].
        split; [intros b [Hb|Hb]; [discriminate|auto]|].
        split; [simpl in *; destruct a; lia|exact Hl].
      * injection Hs as <- <-. destruct (IH H) as [Hd [Hn Hl]].
        split; [intros b [Hb|Hb]; [discriminate|auto]|].
        split; [simpl in *; destruct a; lia|exact Hl].
    + injection Hs as <- <-. destruct (IH Hok) as [Hd [Hn Hl]].
      split; [intros b [Hb|Hb]; [discriminate|auto]|].
      split; [simpl in *; destruct a; lia|exact Hl].
    + discriminate.
Qed.

Lemma runFuel_dropped (cfg : Config) (n : nat) (l : Location) :
  okLoc cfg l -> stepsLeft cfg l <= n -> snd (runFuel cfg n l) = Dropped.
Proof.
  revert l. induction n as [|n IH]; intros l Hok Hn.
  - destruct l; simpl in *; [lia|lia|lia|reflexivity].
  - destruct l as [a|a|a ttl|]; simpl in Hok, Hn |- *.
    + apply IH; simpl; lia.
    + destruct (Nat.ltb_spec (MaxRedeliveryAttempts cfg) (S a)); simpl.
      * destruct n; reflexivity.
      * apply IH; simpl; lia.
    + apply IH; simpl; lia.
    + reflexivity.
Qed.

Lemma run_to_dropped (cfg : Config) (l : Location) :
  okLoc cfg l -> exists tr, run cfg l tr Dropped.
Proof.
  intros Hok. exists (fst (runFuel cfg (stepsLeft cfg l) l)).
  rewrite <- (runFuel_dropped cfg (stepsLeft cfg l) l Hok (le_n _)).
  apply runFuel_run.
Qed.

Lemma qmin_if (x y : Q) : (if Qle_bool x y then x else y) = Qmin x y.
Proof.
  unfold Qmin, GenericMinMax.gmin, Qle_bool, Qcompare.
  destruct (Z.leb_spec (Qnum x * QDen y) (Qnum y * QDen x)),
    (Z.compare_spec (Qnum x * QDen y) (Qnum y * QDen x)); try reflexivity; lia.
Qed.

(** The values [TestPubSub_GetInterval] checks: 0, 2s, 3s and 4.5s. *)
Example get_interval_test :
  (getRedeliveryInterval intervalTestConfig 0 == 0)%Q /\
  (getRedeliveryInterval intervalTestConfig 1 == 2)%Q /\
  (getRedeliveryInterval intervalTestConfig 2 == 3)%Q /\
  (getRedeliveryInterval intervalTestConfig 3 == 9 # 2)%Q.
Proof. repeat split; vm_compute; reflexivity. Qed.

(** C5: [interval(0) = 0], and for [k >= 1] the interval is
    [min(RedeliveryInitialInterval * RedeliveryMultiplier^(k-1),
    MaxRedeliveryInterval)]. *)
Theorem C5_interval (cfg : Config) (k : nat) :
  getRedeliveryInterval cfg 0 = 0%Q /\
  (1 <= k -> getRedeliveryInterval cfg k =
     Qmin (RedeliveryInitialInterval cfg * RedeliveryMultiplier cfg ^ Z.of_nat (k - 1))%Q
          (MaxRedeliveryInterval cfg)).
Proof.
  split; [reflexivity|]. intros Hk.
  destruct k as [|k]; [lia|]. simpl. rewrite Nat.sub_0_r. apply qmin_if.
Qed.

Lemma C5_interval_witness :
  1 <= 3 /\
  getRedeliveryInterval intervalTestConfig 3 =
  Qmin (RedeliveryInitialInterval intervalTestConfig
        * RedeliveryMultiplier intervalTestConfig ^ Z.of_nat (3 - 1))%Q
       (MaxRedeliveryInterval intervalTestConfig).
Proof.
  split; [lia|]. apply (proj2 (C5_interval intervalTestConfig 3)). lia.
Defined.

(** C2: every run of a published message with a consumer that Nacks every
    delivery dispatches it only with a [delivery-attempt] header of at most
    [MaxRedeliveryAttempts], at most [MaxRedeliveryAttempts + 1] times, and
    exactly that many times once the run is over (nothing more can happen,
    the message is dropped); and every run can be continued to the drop. *)
Theorem C2_redelivery_dispatches (cfg : Config) (tr : list Event) (l : Location) :
  run cfg published tr l ->
  (forall a, In (Dispatched a) tr -> a <= MaxRedeliveryAttempts cfg) /\
  dispatches tr <= MaxRedeliveryAttempts cfg + 1 /\
  (final cfg l -> l = Dropped /\ dispatches tr = MaxRedeliveryAttempts cfg + 1) /\
  (exists tr', run cfg l tr' Dropped).
Proof.
  intros Hr.
  assert (Hok0 : okLoc cfg published) by (simpl; lia).
  destruct (run_inv cfg _ _ _ Hr Hok0) as [Hd [Hn Hl]]. simpl in Hn.
  split; [exact Hd|]. split; [lia|]. split.
  - intros Hf. apply final_dropped in Hf. subst l. simpl in Hn. split; [reflexivity|lia].
  - apply run_to_dropped. exact Hl.
Qed.

Lemma C2_redelivery_dispatches_witness :
  run testConfig published (fst (runFuel testConfig 100 published))
      (snd (runFuel testConfig 100 published)) /\
  dispatches (fst (runFuel testConfig 100 published)) = 6.
Proof.
  split; [apply runFuel_run|].
  change 6 with (MaxRedeliveryAttempts testConfig + 1).
  apply (proj2 (proj1 (proj2 (proj2 (C2_redelivery_dispatches testConfig _ _
           (runFuel_run testConfig 100 published)))) ltac:(vm_compute; reflexivity))).
Defined.

End AMQPFacts.

Module HttpSubscriberExtras.
Import HttpSubscriber.

Definition actorA := "https://actor.example.com/services/orb"%string.
Definition msgA := mkMessage "a" "p" [].
Definition sigRequest := mkRequest false (Ok (true, Some actorA)) (Ok msgA).

(** The statuses the HTTP handler may write for one request: the one
    [handleMessage] writes itself before anything is queued, none while it
    is blocked on the send into [pubChan], or, once the message is queued,
    one of those [respond] may write for the signals [evs] of which [k] have
    fired. *)
Definition responses (s : Subscriber) (r : Request) (evs : list SelectCase) (k : nat)
  : list nat :=
  match handleMessage s r with
  | Responded st => [st]
  | BlockedOnSend => []
  | Queued _ _ => respondOutcomes evs k
  end.

Lemma respond_500 (evs : list SelectCase) (k : nat) :
  In StatusInternalServerError (respondOutcomes evs k) <->
  In CaseNacked (selectable evs k) \/ In CaseCtxDone (selectable evs k).
Proof.
  unfold respondOutcomes. rewrite in_map_iff. split.
  - intros [c [Hc Hin]]. destruct c; try discriminate; tauto.
  - intros [Hin|Hin]; eexists; split; [|exact Hin| |exact Hin]; reflexivity.
Qed.

Lemma respond_503 (evs : list SelectCase) (k : nat) :
  In StatusServiceUnavailable (respondOutcomes evs k) <-> In CaseStopped (selectable evs k).
Proof.
  unfold respondOutcomes. rewrite in_map_iff. split.
  - intros [c [Hc Hin]]. destruct c; try discriminate; tauto.
  - intros Hin. eexists; split; [|exact Hin]. reflexivity.
Qed.

Lemma respond_no_401 (evs : list SelectCase) (k : nat) :
  ~ In StatusUnauthorized (respondOutcomes evs k).
Proof.
  unfold respondOutcomes. rewrite in_map_iff. intros [c [Hc _]]. destruct c; discriminate.
Qed.

Lemma respond_no_400 (evs : list SelectCase) (k : nat) :
  ~ In StatusBadRequest (respondOutcomes evs k).
Proof.
  unfold respondOutcomes. rewrite in_map_iff. intros [c [Hc _]]. destruct c; discriminate.
Qed.

Ltac respond_cases :=
  repeat match goal with
         | H : _ /\ _ |- _ => destruct H
         | H : _ \/ _ |- _ => destruct H
         | H : exists _, _ |- _ => destruct H
         | H : In StatusUnauthorized (respondOutcomes _ _) |- _ =>
             exfalso; exact (respond_no_401 _ _ H)
         | H : In StatusBadRequest (respondOutcomes _ _) |- _ =>
             exfalso; exact (respond_no_400 _ _ H)
         | H : In StatusInternalServerError (respondOutcomes _ _) |- _ =>
             apply respond_500 in H
         | H : In StatusServiceUnavailable (respondOutcomes _ _) |- _ =>
             apply respond_503 in H
         | |- In StatusInternalServerError (respondOutcomes _ _) => apply respond_500
         | |- In StatusServiceUnavailable (respondOutcomes _ _) => apply respond_503
         end.

(** [handleMessage] and the [respond] it ends with write 500 exactly when
    the bearer token is not accepted and the HTTP signature check fails with
    an error, or when the message was queued and [respond] takes its Nack
    or context-done case; they write 401 exactly when the token is not
    accepted and the signature is not verified. *)
Theorem handleMessage_auth_errors (s : Subscriber) (r : Request) (evs : list SelectCase)
    (k : nat) :
  (In StatusInternalServerError (responses s r evs k) <->
   (tokenVerified r = false /\ exists e, verifyRequest r = Err e) \/
   ((exists s' m, handleMessage s r = Queued s' m) /\
    (In CaseNacked (selectable evs k) \/ In CaseCtxDone (selectable evs k)))) /\
  (In StatusUnauthorized (responses s r evs k) <->
   tokenVerified r = false /\ exists a, verifyRequest r = Ok (false, a)).
Proof.
  unfold responses, handleMessage, authenticate, publish.
  destruct (tokenVerified r), (verifyRequest r) as [[[|] a]|e], (unmarshal r) as [m|e'];
    simpl; try destruct (negb _); try destruct (_ <? _); simpl;
    split; split; intros H; respond_cases; try discriminate; try tauto;
    eauto 6.
Qed.

(** Once the request is authenticated, [handleMessage] and [respond] write
    400 exactly when the body does not unmarshal, and 503 exactly when it
    unmarshals but the service is not started, or when the message was
    queued and [respond] takes its [stopped] case. *)
Theorem handleMessage_after_auth (s : Subscriber) (r : Request) (evs : list SelectCase)
    (k : nat) :
  authenticated r ->
  (In StatusBadRequest (responses s r evs k) <-> exists e, unmarshal r = Err e) /\
  (In StatusServiceUnavailable (responses s r evs k) <->
   ((exists m, unmarshal r = Ok m) /\ lcState s <> StateStarted) \/
   ((exists s' m, handleMessage s r = Queued s' m) /\ In CaseStopped (selectable evs k))).
Proof.
  intros Hauth. destruct (HttpSubscriberFacts.authenticate_ok r Hauth) as [actor Ha].
  unfold responses, handleMessage. rewrite Ha. unfold publish.
  destruct (unmarshal r) as [m|e];
    [destruct (lcState s) eqn:Hs; simpl;
     try destruct (Nat.ltb_spec (List.length (pubChan s)) (BufferSize s))|]; simpl;
    split; split; intros Hx; respond_cases;
    try contradiction; try discriminate; try congruence; eauto 6;
    try (left; split; [eauto|discriminate]).
Qed.

Lemma handleMessage_after_auth_witness :
  authenticated sigRequest /\
  In StatusServiceUnavailable
     (responses (mkSubscriber StateStopped 100 []) sigRequest [] 0).
Proof.
  split; [right; eexists; reflexivity|].
  apply (handleMessage_after_auth (mkSubscriber StateStopped 100 []) sigRequest [] 0);
    [right; eexists; reflexivity|].
  left. split; [eexists; reflexivity|discriminate].
Defined.

(** A message [handleMessage] queues is the unmarshalled one, appended at
    the end of [pubChan] of a started subscriber with room in it; when the
    request was authenticated by its HTTP signature rather than a bearer
    token, the signing actor (if any) is added under [actor-iri]. *)
Theorem handleMessage_queued (s s' : Subscriber) (r : Request) (m : Message) :
  handleMessage s r = Queued s' m ->
  lcState s = StateStarted /\ List.length (pubChan s) < BufferSize s /\
  s' = mkSubscriber (lcState s) (BufferSize s) (pubChan s ++ [m]) /\
  exists m0, unmarshal r = Ok m0 /\
    ((tokenVerified r = true /\ m = m0) \/
     (tokenVerified r = false /\
      exists actor, verifyRequest r = Ok (true, actor) /\ m = addActor actor m0)).
Proof.
  unfold handleMessage, authenticate, publish.
  destruct (tokenVerified r) eqn:Ht;
    [|destruct (verifyRequest r) as [[[|] actor]|e] eqn:Hv; try discriminate];
    (destruct (unmarshal r) as [m0|e] eqn:Hu; [|discriminate]);
    (destruct (lcState s) eqn:Hs; simpl; try discriminate);
    (destruct (Nat.ltb_spec (List.length (pubChan s)) (BufferSize s)); [|discriminate]);
    intros Hq; injection Hq as <- <-;
    (split; [reflexivity|]); (split; [assumption|]); (split; [reflexivity|]);
    exists m0; (split; [reflexivity|]); eauto.
Qed.

Lemma handleMessage_queued_witness :
  handleMessage (New 0) sigRequest =
    Queued (mkSubscriber StateStarted 100 [addActor (Some actorA) msgA])
           (addActor (Some actorA) msgA) /\
  Metadata (addActor (Some actorA) msgA) = [(ActorIRIKey, actorA)] /\
  (lcState (New 0) = StateStarted /\ List.length (pubChan (New 0)) < BufferSize (New 0) /\
  mkSubscriber StateStarted 100 [addActor (Some actorA) msgA] =
    mkSubscriber (lcState (New 0)) (BufferSize (New 0))
                 (pubChan (New 0) ++ [addActor (Some actorA) msgA]) /\
  exists m0, unmarshal sigRequest = Ok m0 /\
    ((tokenVerified sigRequest = true /\ addActor (Some actorA) msgA = m0) \/
     (tokenVerified sigRequest = false /\
      exists actor, verifyRequest sigRequest = Ok (true, actor) /\
                    addActor (Some actorA) msgA = addActor actor m0))).
Proof.
  split; [reflexivity|]. split; [reflexivity|].
  apply handleMessage_queued. reflexivity.
Defined.

End HttpSubscriberExtras.

Module HttpSubscriberRuns.
Import HttpSubscriber.
Definition m0 := HttpSubscriberFacts.m0.
Definition m1 := HttpSubscriberFacts.m1.

(** Finite interleavings. *)
Inductive gsteps : GState -> GState -> Prop :=
| GRefl : forall s, gsteps s s
| GTrans : forall s s' s'', gstep s s' -> gsteps s' s'' -> gsteps s s''.

(** The messages on their way to the consumer, oldest first: those in
    [msgChan], the one the publisher holds, those in [pubChan]. *)
Definition flight (s : GState) : list Message :=
  gMsg s ++ (match gPubPC s with PSend m => [m] | _ => [] end) ++ gPub s.

(** With zero capacity no message ever enters [pubChan]. *)
Definition CapInv (s : GState) : Prop :=
  gCap s = 0 -> gPub s = [] /\ (forall m, gPubPC s <> PSend m).

Lemma CapInv_step (s s' : GState) : CapInv s -> gstep s s' -> CapInv s'.
Proof.
  unfold CapInv. intros Hc Hst. inversion Hst; subst; simpl in *; intros H0; subst;
    try lia;
    try (exfalso; destruct (Hc eq_refl) as [Hp Hs]; (discriminate || exact (Hs _ eq_refl)));
    try (destruct (Hc eq_refl) as [Hp Hs]; split; [assumption|]);
    try (intros m'; discriminate); try assumption.
Qed.

Lemma greach_invs (cap : nat) (s : GState) :
  greach cap s -> HttpSubscriberFacts.GInv s /\ CapInv s.
Proof.
  induction 1 as [|s s' Hr [Hi Hc] Hst].
  - split; [apply HttpSubscriberFacts.GInv_init|]. unfold CapInv; simpl.
    split; [reflexivity|discriminate].
  - split; [eapply HttpSubscriberFacts.GInv_step; eauto|eapply CapInv_step; eauto].
Qed.

Lemma greach_gsteps (cap : nat) (s s' : GState) :
  greach cap s -> gsteps s s' -> greach cap s'.
Proof. intros Hr Hs. induction Hs; [exact Hr|]. apply IHHs. eapply ReachStep; eauto. Qed.

Lemma drain pb mb c mc sc dc pp sp pn :
  gsteps (mkG pb mb c mc sc dc pp sp pn) (mkG pb [] c mc sc dc pp sp pn).
Proof.
  induction mb as [|m mb IH]; [apply GRefl|].
  eapply GTrans; [exact (StepConsume m pb mb c mc sc dc pp sp pn)|exact IH].
Qed.

Lemma from_exit pb mb c :
  gsteps (mkG pb mb c false true true PExit SWaitDone false)
         (mkG pb mb c true true true PExit SFinished false).
Proof.
  eapply GTrans; [exact (StepStopWait pb mb c false PExit false)|].
  eapply GTrans; [exact (StepStopCloseMsg pb mb c false true true PExit false)|].
  exact (GRefl _).
Qed.

Lemma from_loop pb mb c :
  gsteps (mkG pb mb c false true false PLoop SWaitDone false)
         (mkG pb mb c true true true PExit SFinished false).
Proof.
  eapply GTrans; [exact (StepPubStop pb mb c false false SWaitDone false)|].
  exact (from_exit pb mb c).
Qed.

Lemma from_send pb mb c m :
  0 < c ->
  gsteps (mkG pb mb c false true false (PSend m) SWaitDone false)
         (mkG pb [m] c true true true PExit SFinished false).
Proof.
  intros Hc.
  assert (Hd := drain pb mb c false true false (PSend m) SWaitDone false).
  assert (Ht : forall x y z, gsteps x y -> gsteps y z -> gsteps x z).
  { intros x y z H1 H2. induction H1; [exact H2|]. eapply GTrans; eauto. }
  apply (Ht _ _ _ Hd).
  eapply GTrans; [exact (StepPubSend m pb [] c true false SWaitDone false Hc)|].
  exact (from_loop pb [m] c).
Qed.

(** [stop] cannot deadlock: from every reachable state of the subscriber's
    goroutines there is an interleaving (the consumer reading [msgChan])
    in which [stop] returns, having closed [msgChan] after the publisher
    returned, without a panic. *)
Theorem stop_always_completes (cap : nat) (s : GState) :
  greach cap s ->
  exists s', gsteps s s' /\ gStopPC s' = SFinished /\ gMsgClosed s' = true /\
             gPubPC s' = PExit /\ gPanic s' = false.
Proof.
  intros Hr. destruct (greach_invs cap s Hr) as [Hi Hc].
  destruct s as [pb mb c mc sc dc pp sp pn].
  unfold HttpSubscriberFacts.GInv, CapInv in *. simpl in *.
  destruct Hi as (Hp & [Hd1 Hd2] & Hds & [Hs1 Hs2] & [Hm1 Hm2] & Hsd). subst pn.
  assert (Hwait : forall dc' pp', (dc' = true <-> pp' = PExit) ->
            (c = 0 -> forall m, pp' <> PSend m) ->
            exists s', gsteps (mkG pb mb c false true dc' pp' SWaitDone false) s' /\
              gStopPC s' = SFinished /\ gMsgClosed s' = true /\
              gPubPC s' = PExit /\ gPanic s' = false).
  { intros dc' pp' Hd Hc'. destruct pp' as [|m|].
    - destruct dc'; [destruct Hd as [H _]; discriminate (H eq_refl)|].
      eexists; split; [apply from_loop|]; repeat split.
    - destruct dc'; [destruct Hd as [H _]; discriminate (H eq_refl)|].
      destruct c as [|c]; [exfalso; exact (Hc' eq_refl m eq_refl)|].
      eexists; split; [apply from_send; lia|]; repeat split.
    - destruct Hd as [_ H]. rewrite (H eq_refl).
      eexists; split; [apply from_exit|]; repeat split. }
  assert (Hc' : c = 0 -> forall m, pp <> PSend m) by (intros H0; apply (Hc H0)).
  destruct sp.
  - assert (sc = false) as -> by (destruct sc; [exfalso; apply (Hs1 eq_refl); reflexivity|reflexivity]).
    assert (mc = false) as -> by (destruct mc; [discriminate (Hm1 eq_refl)|reflexivity]).
    destruct (Hwait dc pp (conj Hd1 Hd2) Hc') as [s' [Hs' P]].
    exists s'. split; [|exact P].
    eapply GTrans; [exact (StepStopClose pb mb c false false dc pp false)|exact Hs'].
  - assert (sc = true) as -> by (apply Hs2; discriminate).
    assert (mc = false) as -> by (destruct mc; [discriminate (Hm1 eq_refl)|reflexivity]).
    exact (Hwait dc pp (conj Hd1 Hd2) Hc').
  - assert (dc = true) as -> by (apply Hsd; left; reflexivity).
    assert (sc = true) as -> by (apply Hs2; discriminate).
    assert (mc = false) as -> by (destruct mc; [discriminate (Hm1 eq_refl)|reflexivity]).
    rewrite (Hd1 eq_refl).
    eexists; split; [eapply GTrans; [exact (StepStopCloseMsg pb mb c false true true PExit false)
                                    |exact (GRefl _)]|].
    repeat split.
  - assert (dc = true) as -> by (apply Hsd; right; reflexivity).
    assert (mc = true) as -> by (apply Hm2; reflexivity).
    rewrite (Hd1 eq_refl).
    exists (mkG pb mb c true sc true PExit SFinished false). split; [apply GRefl|].
    repeat split.
Qed.

Lemma stop_always_completes_witness :
  exists s', gsteps (initG 1) s' /\ gStopPC s' = SFinished /\ gMsgClosed s' = true /\
             gPubPC s' = PExit /\ gPanic s' = false.
Proof. apply (stop_always_completes 1). apply ReachInit. Defined.

(** Once the publisher goroutine has returned nothing takes a message out
    of [pubChan] any more: the publisher stays returned, [pubChan] only
    grows (handlers that passed the state check may still send) and
    [msgChan] only loses the messages the consumer reads. Messages left in
    [pubChan] are never delivered. *)
Theorem pubChan_stuck_after_exit (s s' : GState) :
  gsteps s s' -> gPubPC s = PExit ->
  gPubPC s' = PExit /\ (exists l, gPub s' = gPub s ++ l) /\
  (exists pre, gMsg s = pre ++ gMsg s').
Proof.
  induction 1 as [s|s s1 s2 Hst Hs IH]; intros He.
  - split; [exact He|]. split; [exists []; symmetry; apply app_nil_r|exists []; reflexivity].
  - inversion Hst; subst; simpl in *; try discriminate;
      destruct (IH He) as [He' [[l Hl] [pre Hpre]]]; simpl in *;
      (split; [exact He'|]).
    + split; [exists ([m] ++ l); rewrite Hl, app_assoc; reflexivity|exists pre; exact Hpre].
    + split; [exists l; exact Hl|exists (m :: pre); rewrite Hpre; reflexivity].
    + split; [exists l; exact Hl|exists pre; exact Hpre].
    + split; [exists l; exact Hl|exists pre; exact Hpre].
    + split; [exists l; exact Hl|exists pre; exact Hpre].
Qed.

Lemma pubChan_stuck_after_exit_witness :
  gsteps (mkG [m0] [m1] 1 true true true PExit SFinished false)
         (mkG [m0] [] 1 true true true PExit SFinished false) /\
  gPubPC (mkG [m0] [m1] 1 true true true PExit SFinished false) = PExit /\
  (gPubPC (mkG [m0] [] 1 true true true PExit SFinished false) = PExit /\
   (exists l, gPub (mkG [m0] [] 1 true true true PExit SFinished false) =
              gPub (mkG [m0] [m1] 1 true true true PExit SFinished false) ++ l) /\
   (exists pre, gMsg (mkG [m0] [m1] 1 true true true PExit SFinished false) =
                pre ++ gMsg (mkG [m0] [] 1 true true true PExit SFinished false))).
Proof.
  assert (H : gsteps (mkG [m0] [m1] 1 true true true PExit SFinished false)
                     (mkG [m0] [] 1 true true true PExit SFinished false)).
  { eapply GTrans; [exact (StepConsume m1 [m0] [] 1 true true true PExit SFinished false)|].
    apply GRefl. }
  split; [exact H|]. split; [reflexivity|].
  apply (pubChan_stuck_after_exit _ _ H). reflexivity.
Defined.

(** The publisher forwards messages first in, first out, without loss or
    duplication: every step leaves the sequence of messages on their way to
    the consumer ([msgChan], the one the publisher holds, [pubChan])
    unchanged, appends the message a handler sends into [pubChan], or
    removes its first message, the one the consumer reads from [msgChan]. *)
Theorem publisher_fifo (s s' : GState) :
  gstep s s' ->
  flight s' = flight s \/
  (exists m, flight s' = flight s ++ [m] /\ gPub s' = gPub s ++ [m]) \/
  (exists m, flight s = m :: flight s' /\ gMsg s = m :: gMsg s').
Proof.
  unfold flight. intros Hst. inversion Hst; subst; simpl.
  - right; left. exists m. rewrite !app_assoc. split; reflexivity.
  - left. reflexivity.
  - left. reflexivity.
  - left. rewrite <- app_assoc. reflexivity.
  - left. reflexivity.
  - right; right. exists m. split; reflexivity.
  - left. reflexivity.
  - left. reflexivity.
  - left. reflexivity.
Qed.

Lemma publisher_fifo_witness :
  gstep (initG 1) (mkG [m0] [] 1 false false false PLoop SIdle false) /\
  (flight (mkG [m0] [] 1 false false false PLoop SIdle false) = flight (initG 1) \/
   (exists m, flight (mkG [m0] [] 1 false false false PLoop SIdle false) = flight (initG 1) ++ [m] /\
              gPub (mkG [m0] [] 1 false false false PLoop SIdle false) = gPub (initG 1) ++ [m]) \/
   (exists m, flight (initG 1) = m :: flight (mkG [m0] [] 1 false false false PLoop SIdle false) /\
              gMsg (initG 1) = m :: gMsg (mkG [m0] [] 1 false false false PLoop SIdle false))).
Proof.
  assert (H : gstep (initG 1) (mkG [m0] [] 1 false false false PLoop SIdle false)).
  { exact (StepHandlerSend [] [] 1 false false false PLoop SIdle false m0 (le_n 1)). }
  split; [exact H|]. exact (publisher_fifo _ _ H).
Defined.

(** The stop protocol as the goroutines keep it: the publisher returns only
    after [stop] has closed [stopped], [done] is closed exactly when the
    publisher has returned, and [msgChan] is closed exactly when [stop] has
    finished. *)
Theorem stop_protocol_order (cap : nat) (s : GState) :
  greach cap s ->
  (gPubPC s = PExit -> gStoppedClosed s = true /\ gStopPC s <> SIdle) /\
  (gDoneClosed s = true <-> gPubPC s = PExit) /\
  (gMsgClosed s = true <-> gStopPC s = SFinished).
Proof.
  intros Hr. destruct (greach_invs cap s Hr) as [Hi _].
  destruct Hi as (_ & [Hd1 Hd2] & Hds & [Hs1 Hs2] & Hm & _).
  split; [|split; [split; assumption|exact Hm]].
  intros He. assert (Hsc : gStoppedClosed s = true) by (apply Hds, Hd2, He).
  split; [exact Hsc|apply Hs1, Hsc].
Qed.

Lemma stop_protocol_order_witness :
  (gPubPC (mkG [] [m0] 1 true true true PExit SFinished false) = PExit ->
   gStoppedClosed (mkG [] [m0] 1 true true true PExit SFinished false) = true /\
   gStopPC (mkG [] [m0] 1 true true true PExit SFinished false) <> SIdle) /\
  (gDoneClosed (mkG [] [m0] 1 true true true PExit SFinished false) = true <->
   gPubPC (mkG [] [m0] 1 true true true PExit SFinished false) = PExit) /\
  (gMsgClosed (mkG [] [m0] 1 true true true PExit SFinished false) = true <->
   gStopPC (mkG [] [m0] 1 true true true PExit SFinished false) = SFinished).
Proof. apply (stop_protocol_order 1). exact HttpSubscriberFacts.runStates_reach. Defined.

End HttpSubscriberRuns.

Module PolicyRestHandlerExtras.
Import PolicyRestHandler.

(** [handle] answers 200 exactly when the body is read, parses and the
    store accepts the [Put]; then the response has no body and the value
    stored under the policy key is the request body as received. Every
    response is 200 with no body, 400 with "Bad Request." or 500 with
    "Internal Server Error.". *)
Theorem handle_responses (PolicyConfig : Type) (Parse : string -> result PolicyConfig)
    (key : string) (req : ReadResult) (put : string -> string -> option string) :
  let out := handle PolicyConfig Parse key req put in
  (status (fst out) = StatusOK <->
   exists b c, req = ReadOk b /\ Parse b = Ok c /\ put key b = None) /\
  (status (fst out) = StatusOK ->
   body (fst out) = EmptyString /\ exists b, req = ReadOk b /\ snd out = [(key, b)]) /\
  (fst out = mkResponse StatusOK EmptyString \/
   fst out = mkResponse StatusBadRequest badRequestResponse \/
   fst out = mkResponse StatusInternalServerError internalServerErrorResponse).
Proof.
  intros out. subst out. unfold handle.
  destruct req as [b|e]; simpl.
  - destruct (Parse b) as [c|e] eqn:Hp; simpl.
    + destruct (put key b) as [e|] eqn:Hput; simpl.
      * split; [split; [discriminate|intros (b' & c' & Hb & _ & Hn); injection Hb as <-;
                                    congruence]|].
        split; [discriminate|]. right; right; reflexivity.
      * split; [split; [intros _; eauto|reflexivity]|].
        split; [intros _; split; [reflexivity|eauto]|]. left; reflexivity.
    + split; [split; [discriminate|intros (b' & c' & Hb & Hc & _); injection Hb as <-;
                                  congruence]|].
      split; [discriminate|]. right; left; reflexivity.
  - split; [split; [discriminate|intros (b' & c' & Hb & _); discriminate]|].
    split; [discriminate|]. right; left; reflexivity.
Qed.

End PolicyRestHandlerExtras.
